(** * The AngularJS module loader and the default [$exceptionHandler]

    A shallow embedding of [src/ng/exceptionHandler.js], which holds two
    units: the provider of the [$exceptionHandler] service and
    [setupModuleLoader], whose result is installed as [angular.module].

    JavaScript objects have identity and are mutated in place, so module
    descriptors live in a heap and are referred to by location.  The
    registry [modules] is an object literal [{}]: its own properties are a
    finite map, and a read [modules[name]] falls back to [Object.prototype]
    when [name] is not an own property. *)

From stdpp Require Import gmap strings list.

Local Open Scope string_scope.
Local Open Scope list_scope.

(** ** Values *)

(** Locations of objects on the heap. *)
Abbreviation loc := nat (only parsing).

#[local] Set Warnings "-register-all".

(** The JavaScript values that reach the loader.  Numbers are integers
    here; [NaN], the other falsy number, is not represented. *)
Inductive val :=
| VUndefined
| VNull
| VBool (b : bool)
| VNum (n : Z)
| VStr (s : string)
| VArr (xs : list val)
| VFun (f : nat)          (* a function supplied by the caller, opaque *)
| VObj (o : nat)          (* an object of some other unit, opaque *)
| VNative (p : string)    (* the member [p] of [Object.prototype] *)
| VModule (l : loc).      (* a module descriptor *)

(** ToBoolean.  Every object, array and function is truthy, the empty
    array included. *)
Definition truthy (v : val) : bool :=
  match v with
  | VUndefined | VNull => false
  | VBool b => b
  | VNum n => negb (n =? 0)%Z
  | VStr s => negb (String.eqb s "")
  | VArr _ | VFun _ | VObj _ | VNative _ | VModule _ => true
  end.

(** What a [throw] carries. *)
Inductive exn :=
| Error (message : string)
| TypeError (message : string).

(** ** Module descriptors *)

(** One record of the invoke queue: [[provider, method, arguments]]. *)
Definition invocation : Type := string * string * list val.

(** The data properties of [moduleInstance].  Its methods are closures
    over the two arrays and over [moduleInstance] itself; they are the
    functions of [moduleInstance] below, taking the location. *)
Record angular_Module := mkModule {
  _invokeQueue : list invocation;
  _runBlocks : list val;
  requires : val;
  name : string
}.

(** ** The world *)

(** A call into code outside the loader: a function handed in by the
    caller, or a method of a service. *)
Record call := mkCall {
  callee : string;
  this : val;
  arguments : list val
}.

Record state := mkState {
  heap : list angular_Module;          (* descriptors, by location *)
  modules : gmap string (option loc);  (* own properties of [modules]:
                                          [?angular.Module], [None] is null *)
  calls : list call                    (* calls made into outside code *)
}.

Definition initial : state := mkState [] ∅ [].

(** ** Computations: state and exceptions

    A statement either completes normally or throws; what it did to the
    heap before throwing stays done. *)

Inductive completion (A : Type) :=
| Return (a : A)
| Throw (e : exn).
Arguments Return {A} a.
Arguments Throw {A} e.

Definition M (A : Type) : Type := state → completion A * state.

#[export] Instance M_ret : MRet M := λ A a st, (Return a, st).
#[export] Instance M_bind : MBind M := λ A B f c st,
  match c st with
  | (Return a, st') => f a st'
  | (Throw e, st') => (Throw e, st')
  end.

Definition throw {A} (e : exn) : M A := λ st, (Throw e, st).

(** ** Property access on [modules] *)

(** The properties every object literal inherits: those of ES5.1 15.2.4
    and the [__proto__] accessor and legacy accessor helpers of the
    browsers' engines.  All of them are objects or functions. *)
Definition Object_prototype : list string :=
  [ "constructor"; "toString"; "toLocaleString"; "valueOf";
    "hasOwnProperty"; "isPrototypeOf"; "propertyIsEnumerable";
    "__proto__"; "__defineGetter__"; "__defineSetter__";
    "__lookupGetter__"; "__lookupSetter__" ].

Definition inherited (P : string) : bool := bool_decide (P ∈ Object_prototype).

(** [obj[P]] *)
Definition Get (obj : gmap string (option loc)) (P : string) : val :=
  match obj !! P with
  | Some (Some l) => VModule l
  | Some None => VNull
  | None => if inherited P then VNative P else VUndefined
  end.

Definition getProp (P : string) : M val := λ st, (Return (Get (modules st) P), st).

(** [obj[P] = v], for an own property or a name that no setter of the
    prototype intercepts. *)
Definition setProp (P : string) (v : option loc) : M unit := λ st,
  (Return (), mkState (heap st) (<[P := v]> (modules st)) (calls st)).

(** [modules.hasOwnProperty(P)]: the method is itself looked up on
    [modules]; an own property of that name is a descriptor or null, and
    calling it is a TypeError. *)
Definition modules_hasOwnProperty (P : string) : M bool := λ st,
  match modules st !! "hasOwnProperty" with
  | None => (Return (bool_decide (is_Some (modules st !! P))), st)
  | Some _ => (Throw (TypeError "modules.hasOwnProperty is not a function"), st)
  end.

(** ** Heap operations *)

(** A new object. *)
Definition alloc (m : angular_Module) : M loc := λ st,
  (Return (length (heap st)), mkState (heap st ++ [m]) (modules st) (calls st)).

(** In-place update of the descriptor at [l].  The closures that do it
    exist only for allocated descriptors; elsewhere nothing changes. *)
Definition mutate (l : loc) (f : angular_Module → angular_Module) : M unit := λ st,
  (Return (), mkState (alter f l (heap st)) (modules st) (calls st)).

(** [invokeQueue.push(c)] *)
Definition push_invokeQueue (c : invocation) (m : angular_Module) : angular_Module :=
  mkModule (_invokeQueue m ++ [c]) (_runBlocks m) (requires m) (name m).

(** [runBlocks.push(fn)] *)
Definition push_runBlocks (fn : val) (m : angular_Module) : angular_Module :=
  mkModule (_invokeQueue m) (_runBlocks m ++ [fn]) (requires m) (name m).

(** ** [setupModuleLoader] *)

(** [function ensure(obj, name, factory)], with [obj] the registry:
    [return obj[name] || (obj[name] = factory());]
    The registry is declared [Object.<string, ?angular.Module>] and the one
    factory the loader passes returns a descriptor or throws, so a factory
    is a computation of a location; one that returns a falsy value has no
    counterpart here. *)
Definition ensure (name : string) (factory : M loc) : M val :=
  v ← getProp name;
  if truthy v then mret v
  else
    l ← factory;
    setProp name (Some l);;
    mret (VModule l).

(** [function invokeLater(provider, method, insertMethod)], applied to
    the descriptor whose closure it is.  The insert method is not used:
    the body pushes. *)
Definition invokeLater (moduleInstance : loc)
    (provider method : string) (insertMethod : option string)
    (arguments : list val) : M val :=
  mutate moduleInstance (push_invokeQueue (provider, method, arguments));;
  mret (VModule moduleInstance).

(** The methods of a descriptor. *)
Module moduleInstance.
Definition provider (m : loc) := invokeLater m "$provide" "provider" None.
Definition factory (m : loc) := invokeLater m "$provide" "factory" None.
Definition service (m : loc) := invokeLater m "$provide" "service" None.
Definition value (m : loc) := invokeLater m "$provide" "value" None.
Definition constant (m : loc) := invokeLater m "$provide" "constant" (Some "unshift").
Definition filter (m : loc) := invokeLater m "$filterProvider" "register" None.
Definition controller (m : loc) := invokeLater m "$controllerProvider" "register" None.
Definition directive (m : loc) := invokeLater m "$compileProvider" "directive" None.
Definition config (m : loc) := invokeLater m "$injector" "invoke" None.

Definition run (m : loc) (initializationFn : val) : M val :=
  mutate m (push_runBlocks initializationFn);;
  mret (VModule m).
End moduleInstance.

(** The function handed to [ensure] by [module]. *)
Definition module_factory (name : string) (requires configFn : val) : M loc :=
  if negb (truthy requires) then throw (Error ("No module: " +:+ name))
  else
    m ← alloc (mkModule [] [] requires name);
    (if truthy configFn then moduleInstance.config m [configFn]
     else mret VUndefined);;
    mret m.

(** [function module(name, requires, configFn)], that is [angular.module].
    An argument left out is [VUndefined]. *)
Definition module (name : string) (requires configFn : val) : M val :=
  (if truthy requires then
     own ← modules_hasOwnProperty name;
     if own : bool then setProp name None else mret ()
   else mret ());;
  ensure name (module_factory name requires configFn).

(** The descriptor [module] builds: the queue holds the [config] call
    when a [configFn] was given. *)
Definition fresh_module (n : string) (r configFn : val) : angular_Module :=
  mkModule (if truthy configFn then [("$injector", "invoke", [configFn])] else [])
           [] r n.

(** ** [$ExceptionHandlerProvider] *)

(** The [$log] service as the handler sees it: an object with an [error]
    method, a function of its receiver and its arguments. *)
Record Log := mkLog {
  log_object : val;
  error : val → list val → M val
}.

(** The function returned by [$get]:
    [function(exception, cause) { $log.error.apply($log, arguments); }] *)
Definition exceptionHandler (log : Log) (arguments : list val) : M val :=
  error log (log_object log) arguments;;
  mret VUndefined.

(** [this.$get = ['$log', function($log) {...}]]: the names to inject and
    the function that receives them. *)
Record provider_object := mkProvider {
  get_inject : list string;
  get_function : Log → list val → M val
}.

Definition ExceptionHandlerProvider : provider_object :=
  mkProvider ["$log"] exceptionHandler.

(** A logging sink that records each call and returns. *)
Definition recording_log : Log :=
  mkLog (VObj 0) (λ receiver args st,
    (Return VUndefined,
     mkState (heap st) (modules st)
             (calls st ++ [mkCall "$log.error" receiver args]))).

(** A logger whose [error] throws. *)
Definition failing_log (e : exn) : Log :=
  mkLog (VObj 0) (λ _ _, throw e).

(** ** Calls on the public interface *)

(** The nine methods built by [invokeLater]. *)
Inductive registration :=
| Provider | Factory | Service | Value | Constant
| Filter | Controller | Directive | Config.

Definition registration_method (r : registration) : loc → list val → M val :=
  match r with
  | Provider => moduleInstance.provider
  | Factory => moduleInstance.factory
  | Service => moduleInstance.service
  | Value => moduleInstance.value
  | Constant => moduleInstance.constant
  | Filter => moduleInstance.filter
  | Controller => moduleInstance.controller
  | Directive => moduleInstance.directive
  | Config => moduleInstance.config
  end.

(** A call of one method of a descriptor. *)
Inductive method_call :=
| Register (r : registration) (args : list val)
| Run (initializationFn : val).

Definition call_method (m : loc) (c : method_call) : M val :=
  match c with
  | Register r args => registration_method r m args
  | Run fn => moduleInstance.run m fn
  end.

(** [recv.method(...)]: only descriptors have these methods. *)
Definition send (recv : val) (c : method_call) : M val :=
  match recv with
  | VModule m => call_method m c
  | _ => throw (TypeError "undefined is not a function")
  end.

(** [recv.c1(...).c2(...)...]: each call is made on what the one before
    returned. *)
Fixpoint chain (recv : val) (cs : list method_call) : M val :=
  match cs with
  | [] => mret recv
  | c :: cs' => r ← send recv c; chain r cs'
  end.

(** [m.c1(...); m.c2(...); ...]: the calls made one after the other on
    the same descriptor. *)
Fixpoint each (m : loc) (cs : list method_call) : M unit :=
  match cs with
  | [] => mret ()
  | c :: cs' => call_method m c;; each m cs'
  end.

(** Anything a client of the loader can do. *)
Inductive operation :=
| CallModule (n : string) (r configFn : val)
| CallMethod (m : loc) (c : method_call).

Definition perform (op : operation) : M val :=
  match op with
  | CallModule n r configFn => module n r configFn
  | CallMethod m c => call_method m c
  end.

(** The state after a program of operations, one after the other; an
    operation that throws leaves the state it reached, and the program
    goes on (each call is a statement of its own, its error caught). *)
Fixpoint perform_all (ops : list operation) (st : state) : state :=
  match ops with
  | [] => st
  | op :: ops' => perform_all ops' (perform op st).2
  end.

(** The states a program can bring the loader to: a method is only ever
    called on a descriptor that [angular.module] has returned, that is on
    an allocated location. *)
Inductive reachable : state → Prop :=
| reachable_initial : reachable initial
| reachable_module st n r configFn :
    reachable st → reachable (module n r configFn st).2
| reachable_method st m c :
    reachable st → m < length (heap st) → reachable (call_method m c st).2.

(** ** What the specification says the methods record *)

(** The pair [(providerName, methodName)] each registration method is
    said to record. *)
Definition recorded (r : registration) : string * string :=
  match r with
  | Provider => ("$provide", "provider")
  | Factory => ("$provide", "factory")
  | Service => ("$provide", "service")
  | Value => ("$provide", "value")
  | Constant => ("$provide", "constant")
  | Filter => ("$filterProvider", "register")
  | Controller => ("$controllerProvider", "register")
  | Directive => ("$compileProvider", "directive")
  | Config => ("$injector", "invoke")
  end.

Definition record_of (r : registration) (args : list val) : invocation :=
  ((recorded r).1, (recorded r).2, args).

(** The records a sequence of calls adds to the invoke queue, and the
    callbacks it adds to the run blocks, in the order of the calls. *)
Fixpoint invocations_of (cs : list method_call) : list invocation :=
  match cs with
  | [] => []
  | Register r args :: cs' => record_of r args :: invocations_of cs'
  | Run _ :: cs' => invocations_of cs'
  end.

Fixpoint run_blocks_of (cs : list method_call) : list val :=
  match cs with
  | [] => []
  | Register _ _ :: cs' => run_blocks_of cs'
  | Run fn :: cs' => fn :: run_blocks_of cs'
  end.

(** What one call does to the descriptor it is made on. *)
Definition effect (c : method_call) : angular_Module → angular_Module :=
  match c with
  | Register r args => push_invokeQueue (record_of r args)
  | Run fn => push_runBlocks fn
  end.

(** ** Well-formed registries *)

(** No own property hides a member of [Object.prototype]; every entry is
    a descriptor on the heap, stored under its own name. *)
Record wf (st : state) : Prop := mkWf {
  wf_inherited : ∀ P, inherited P = true → modules st !! P = None;
  wf_registered : ∀ n o, modules st !! n = Some o →
    ∃ l m, o = Some l ∧ heap st !! l = Some m ∧ name m = n
}.

(** In a well-formed registry a call of [module] ends in one of four
    ways. *)
Inductive module_outcome (n : string) (r configFn : val) (st : state) :
    completion val * state → Prop :=
| outcome_native :
    inherited n = true → modules st !! n = None →
    module_outcome n r configFn st (Return (VNative n), st)
| outcome_found l m :
    truthy r = false →
    modules st !! n = Some (Some l) → heap st !! l = Some m → name m = n →
    module_outcome n r configFn st (Return (VModule l), st)
| outcome_missing :
    truthy r = false → inherited n = false → modules st !! n = None →
    module_outcome n r configFn st (Throw (Error ("No module: " +:+ n)), st)
| outcome_created :
    truthy r = true → inherited n = false →
    module_outcome n r configFn st
      (Return (VModule (length (heap st))),
       mkState (heap st ++ [fresh_module n r configFn])
               (<[n := Some (length (heap st))]> (modules st))
               (calls st)).

(** [requires] is an array with at least one element. *)
Definition nonempty_list (v : val) : bool :=
  match v with
  | VArr (_ :: _) => true
  | _ => false
  end.

(** * Proofs *)

(** Unfold the monad and the primitive operations. *)
Ltac run_M := unfold mbind, M_bind, mret, M_ret, throw, getProp, setProp, alloc, mutate; simpl.

(** ** Running [module] *)

Lemma alter_new {A} (f : A → A) (l : list A) (x : A) :
  alter f (length l) (l ++ [x]) = l ++ [f x].
Proof.
  replace (length l) with (length l + 0) by lia.
  by rewrite alter_app_r.
Qed.

Lemma Get_own st n l : modules st !! n = Some (Some l) → Get (modules st) n = VModule l.
Proof. unfold Get. by intros ->. Qed.

Lemma module_retrieve n r configFn st v :
  truthy r = false → Get (modules st) n = v → truthy v = true →
  module n r configFn st = (Return v, st).
Proof.
  intros Hr Hv Ht. unfold module, ensure. rewrite Hr. run_M.
  by rewrite Hv, Ht.
Qed.

Lemma module_missing n r configFn st :
  truthy r = false → truthy (Get (modules st) n) = false →
  module n r configFn st = (Throw (Error ("No module: " +:+ n)), st).
Proof.
  intros Hr Hv. unfold module, ensure, module_factory. rewrite Hr. run_M.
  by rewrite Hv.
Qed.

Lemma module_create n r configFn st :
  truthy r = true → modules st !! "hasOwnProperty" = None →
  is_Some (modules st !! n) ∨ inherited n = false →
  module n r configFn st =
    (Return (VModule (length (heap st))),
     mkState (heap st ++ [fresh_module n r configFn])
             (<[n := Some (length (heap st))]> (modules st))
             (calls st)).
Proof.
  intros Hr Hh Hn.
  unfold module, ensure, module_factory, modules_hasOwnProperty, fresh_module.
  rewrite Hr. run_M. rewrite Hh.
  destruct (modules st !! n) as [o|] eqn:Ho.
  - rewrite bool_decide_eq_true_2 by eauto. simpl.
    unfold Get. rewrite lookup_insert_eq. simpl.
    destruct (truthy configFn);
      [unfold moduleInstance.config, invokeLater; run_M; rewrite alter_new
      |simpl]; by rewrite insert_insert_eq.
  - rewrite bool_decide_eq_false_2 by (intros [? ?]; done). simpl.
    destruct Hn as [[? ?]|Hn]; [done|].
    unfold Get. rewrite Ho, Hn. simpl.
    destruct (truthy configFn); [|done].
    unfold moduleInstance.config, invokeLater. run_M.
    by rewrite alter_new.
Qed.

Lemma module_inherited n r configFn st :
  modules st !! n = None → inherited n = true →
  truthy r = false ∨ modules st !! "hasOwnProperty" = None →
  module n r configFn st = (Return (VNative n), st).
Proof.
  intros Ho Hi Hr.
  unfold module, ensure, modules_hasOwnProperty. run_M.
  destruct (truthy r) eqn:Er.
  - destruct Hr as [|Hh]; [done|]. rewrite Hh.
    rewrite bool_decide_eq_false_2 by (rewrite Ho; intros [? ?]; done). simpl.
    unfold Get. by rewrite Ho, Hi.
  - simpl. unfold Get. by rewrite Ho, Hi.
Qed.

Lemma inherited_hasOwnProperty : inherited "hasOwnProperty" = true.
Proof. reflexivity. Qed.

Lemma wf_own_not_inherited st n :
  wf st → is_Some (modules st !! n) → inherited n = false.
Proof.
  intros Hwf [o Ho]. destruct (inherited n) eqn:Hi; [|done].
  rewrite (wf_inherited st Hwf n Hi) in Ho. done.
Qed.

Lemma module_outcomes n r configFn st :
  wf st → module_outcome n r configFn st (module n r configFn st).
Proof.
  intros Hwf.
  pose proof (wf_inherited st Hwf _ inherited_hasOwnProperty) as Hh.
  destruct (modules st !! n) as [o|] eqn:Ho.
  - assert (inherited n = false) as Hi
      by (apply (wf_own_not_inherited st); [done | by rewrite Ho]).
    destruct (wf_registered st Hwf n o Ho) as (l & m & -> & Hl & Hm).
    destruct (truthy r) eqn:Hr.
    + rewrite module_create by (try done; left; by rewrite Ho).
      by apply outcome_created.
    + rewrite (module_retrieve n r configFn st (VModule l));
        [by eapply outcome_found | done | by apply Get_own | done].
  - destruct (inherited n) eqn:Hi.
    + rewrite module_inherited by (try done; by right).
      by apply outcome_native.
    + destruct (truthy r) eqn:Hr.
      * rewrite module_create by (try done; by right).
        by apply outcome_created.
      * rewrite module_missing; [by apply outcome_missing | done |].
        unfold Get. by rewrite Ho, Hi.
Qed.

(** ** Running the methods *)

Lemma registration_method_run r l args st :
  registration_method r l args st =
    (Return (VModule l),
     mkState (alter (push_invokeQueue (record_of r args)) l (heap st))
             (modules st) (calls st)).
Proof. by destruct r. Qed.

Lemma run_run l fn st :
  moduleInstance.run l fn st =
    (Return (VModule l),
     mkState (alter (push_runBlocks fn) l (heap st)) (modules st) (calls st)).
Proof. reflexivity. Qed.

Lemma call_method_run l c st :
  call_method l c st =
    (Return (VModule l),
     mkState (alter (effect c) l (heap st)) (modules st) (calls st)).
Proof. destruct c; [apply registration_method_run | apply run_run]. Qed.

Lemma effect_name c m : name (effect c m) = name m.
Proof. by destruct c. Qed.

Lemma effect_requires c m : requires (effect c m) = requires m.
Proof. by destruct c. Qed.

Lemma effect_invokeQueue c m :
  _invokeQueue (effect c m) = _invokeQueue m ++ invocations_of [c].
Proof. destruct c; simpl; [done | by rewrite app_nil_r]. Qed.

Lemma effect_runBlocks c m :
  _runBlocks (effect c m) = _runBlocks m ++ run_blocks_of [c].
Proof. destruct c; simpl; [by rewrite app_nil_r | done]. Qed.

Lemma invocations_of_app cs cs' :
  invocations_of (cs ++ cs') = invocations_of cs ++ invocations_of cs'.
Proof. induction cs as [|[]]; simpl; congruence. Qed.

Lemma run_blocks_of_app cs cs' :
  run_blocks_of (cs ++ cs') = run_blocks_of cs ++ run_blocks_of cs'.
Proof. induction cs as [|[]]; simpl; congruence. Qed.

(** ** The invariant holds in every reachable state *)

Lemma wf_initial : wf initial.
Proof. split; [done | intros n o Ho; simpl in Ho; by rewrite lookup_empty in Ho]. Qed.

Lemma wf_call_method l c st : wf st → wf (call_method l c st).2.
Proof.
  intros [Hi Hr]. rewrite call_method_run. split; simpl; [done|].
  intros n o Ho. destruct (Hr n o Ho) as (l' & m & -> & Hl & Hn).
  destruct (decide (l = l')) as [->|Hne].
  - exists l', (effect c m). rewrite list_lookup_alter_eq. rewrite Hl.
    by rewrite effect_name.
  - exists l', m. by rewrite list_lookup_alter_ne.
Qed.

Lemma wf_module n r configFn st : wf st → wf (module n r configFn st).2.
Proof.
  intros Hwf. destruct (module_outcomes n r configFn st Hwf); try done.
  destruct Hwf as [Hi Hr]. split; simpl.
  - intros P HP. rewrite lookup_insert_ne by congruence. by apply Hi.
  - intros n' o. destruct (decide (n = n')) as [<-|Hne].
    + rewrite lookup_insert_eq. intros [= <-].
      eexists _, _. split; [done|]. by rewrite list_lookup_middle.
    + rewrite lookup_insert_ne by done. intros Ho.
      destruct (Hr n' o Ho) as (l & m & -> & Hl & Hn).
      exists l, m. rewrite lookup_app_l by by eapply lookup_lt_Some. done.
Qed.

Lemma reachable_wf st : reachable st → wf st.
Proof.
  induction 1; [apply wf_initial | by apply wf_module | by apply wf_call_method].
Qed.

(** ** [module] without the invariant *)

Lemma module_type_error n r configFn st :
  truthy r = true → is_Some (modules st !! "hasOwnProperty") →
  module n r configFn st =
    (Throw (TypeError "modules.hasOwnProperty is not a function"), st).
Proof.
  intros Hr [o Ho]. unfold module, modules_hasOwnProperty. rewrite Hr. run_M.
  by rewrite Ho.
Qed.

(** Whatever the registry holds, a call either returns what [modules[n]]
    already was and changes nothing, or throws and changes nothing, or
    builds one descriptor and stores it. *)
Lemma module_cases n r configFn st :
  (∃ v, module n r configFn st = (Return v, st)
        ∧ Get (modules st) n = v ∧ truthy v = true)
  ∨ (∃ e, module n r configFn st = (Throw e, st))
  ∨ (truthy r = true
     ∧ module n r configFn st =
         (Return (VModule (length (heap st))),
          mkState (heap st ++ [fresh_module n r configFn])
                  (<[n := Some (length (heap st))]> (modules st))
                  (calls st))).
Proof.
  destruct (truthy r) eqn:Hr.
  - destruct (modules st !! "hasOwnProperty") as [o|] eqn:Hh.
    { right; left. eexists. apply module_type_error; [done | by rewrite Hh]. }
    destruct (modules st !! n) as [o|] eqn:Ho.
    { right; right. split; [done|]. apply module_create; try done.
      left. by rewrite Ho. }
    destruct (inherited n) eqn:Hi.
    + left. exists (VNative n). split; [|split; [|done]].
      * apply module_inherited; try done. by right.
      * unfold Get. by rewrite Ho, Hi.
    + right; right. split; [done|]. apply module_create; try done. by right.
  - destruct (truthy (Get (modules st) n)) eqn:Hv.
    + left. eexists. split; [|done]. by apply module_retrieve.
    + right; left. eexists. by apply module_missing.
Qed.

(** ** Sequences and chains of method calls *)

Lemma each_run cs : ∀ l m st,
  heap st !! l = Some m →
  ∃ st', each l cs st = (Return (), st')
    ∧ heap st' !! l =
        Some (mkModule (_invokeQueue m ++ invocations_of cs)
                       (_runBlocks m ++ run_blocks_of cs)
                       (requires m) (name m))
    ∧ (∀ l', l' ≠ l → heap st' !! l' = heap st !! l')
    ∧ modules st' = modules st
    ∧ calls st' = calls st.
Proof.
  induction cs as [|c cs IH]; intros l m st Hl.
  - exists st. simpl. rewrite !app_nil_r. by destruct m.
  - cbn [each]. unfold mbind, M_bind. rewrite call_method_run.
    set (st1 := mkState _ _ _).
    assert (heap st1 !! l = Some (effect c m)) as Hl1
      by (subst st1; simpl; by rewrite list_lookup_alter_eq, Hl).
    destruct (IH l _ st1 Hl1) as (st' & Hrun & Hm & Hother & Hmod & Hcalls).
    exists st'. split; [done|]. split; [|split; [|done]].
    + rewrite Hm, effect_invokeQueue, effect_runBlocks, effect_requires, effect_name.
      rewrite <- !app_assoc.
      change (c :: cs) with ([c] ++ cs).
      by rewrite invocations_of_app, run_blocks_of_app.
    + intros l' Hne. rewrite Hother by done. subst st1. simpl.
      by rewrite list_lookup_alter_ne.
Qed.

Lemma chain_each cs : ∀ l st,
  chain (VModule l) cs st = (Return (VModule l), (each l cs st).2).
Proof.
  induction cs as [|c cs IH]; intros l st; [done|].
  simpl. unfold mbind, M_bind. rewrite call_method_run. rewrite IH.
  by destruct (each l cs _).
Qed.

(** * Properties of the loader and of the handler *)

(** ** Retrieving a name that was never registered *)

(** A name that is neither registered nor a member of [Object.prototype],
    asked for without a dependency list, is reported missing. *)
Lemma module_unregistered n r configFn st :
  modules st !! n = None → inherited n = false → truthy r = false →
  module n r configFn st = (Throw (Error ("No module: " +:+ n)), st).
Proof.
  intros Ho Hi Hr. apply module_missing; [done|].
  unfold Get. by rewrite Ho, Hi.
Qed.

(** C1: an unregistered name asked for without a dependency list should
    raise 'No module: ' + name and return nothing.  On the empty registry
    the name [toString] is not registered, yet [angular.module('toString')]
    returns normally, with the function [modules] inherits under that name:
    [ensure] reads [obj[name]] through the prototype, where [module] itself
    asks [hasOwnProperty]. *)
Theorem module_inherited_name_not_reported :
  modules initial !! "toString" = None
  ∧ truthy VUndefined = false
  ∧ module "toString" VUndefined VUndefined initial
      = (Return (VNative "toString"), initial).
Proof.
  split; [done|]. split; [done|].
  apply module_inherited; [done | done | by left].
Qed.

(** The same holds in every well-formed registry and for every inherited
    name, with or without a dependency list: such a name can be neither
    registered nor reported missing. *)
Lemma module_inherited_name n r configFn st :
  wf st → inherited n = true →
  module n r configFn st = (Return (VNative n), st).
Proof.
  intros Hwf Hi. apply module_inherited; [by apply (wf_inherited st) | done |].
  right. apply (wf_inherited st Hwf), inherited_hasOwnProperty.
Qed.

(** ** Registering a name again *)

(** C2 as stated fails: the specification has only a non-empty dependency
    list replace a registered module, and any other [requires] keep it.
    The empty array is truthy: registering ["app"] again with [[]] replaces
    descriptor 0 by a new descriptor 1. *)
Lemma reregistration_with_empty_list_overwrites :
  ¬ (∀ st n l r,
       reachable st → modules st !! n = Some (Some l) →
       nonempty_list r = false →
       module n r VUndefined st = (Return (VModule l), st)).
Proof.
  intros H.
  specialize (H (module "app" (VArr [VStr "ng"]) VUndefined initial).2
                "app" 0 (VArr [])).
  assert (module "app" (VArr []) VUndefined
            (module "app" (VArr [VStr "ng"]) VUndefined initial).2
          = (Return (VModule 0),
             (module "app" (VArr [VStr "ng"]) VUndefined initial).2)) as Heq.
  { apply H; [apply reachable_module, reachable_initial | by vm_compute | done]. }
  apply (f_equal fst) in Heq. vm_compute in Heq. discriminate.
Qed.

(** C2, as the code has it: registering a registered name again with any
    truthy [requires], the empty array included, raises nothing, stores and
    returns a new descriptor with that [requires] and empty queues, and
    leaves no entry of the registry pointing to the old one; with a falsy
    [requires] the registered descriptor is returned and nothing changes. *)
Theorem module_reregistration n l r configFn r' configFn' st :
  wf st → modules st !! n = Some (Some l) →
  truthy r = true → truthy configFn = false → truthy r' = false →
  (∃ st', module n r configFn st = (Return (VModule (length (heap st))), st')
     ∧ length (heap st) ≠ l
     ∧ heap st' !! length (heap st) = Some (mkModule [] [] r n)
     ∧ modules st' !! n = Some (Some (length (heap st)))
     ∧ (∀ k, modules st' !! k ≠ Some (Some l))
     ∧ (∀ k, k ≠ n → modules st' !! k = modules st !! k)
     ∧ (∀ l', l' < length (heap st) → heap st' !! l' = heap st !! l')
     ∧ calls st' = calls st)
  ∧ module n r' configFn' st = (Return (VModule l), st).
Proof.
  intros Hwf Hn Hr Hc Hr'.
  destruct (wf_registered st Hwf n _ Hn) as (l0 & m & [= <-] & Hl & Hm).
  pose proof (lookup_lt_Some _ _ _ Hl) as Hlt.
  split.
  - pose proof (wf_inherited st Hwf _ inherited_hasOwnProperty) as Hh.
    eexists. split; [apply module_create; [done | done | left; by rewrite Hn]|].
    simpl. unfold fresh_module. rewrite Hc.
    split; [lia|]. split; [by rewrite list_lookup_middle|].
    split; [by rewrite lookup_insert_eq|].
    split; [|split; [|split; [|done]]].
    + intros k. destruct (decide (n = k)) as [<-|Hne].
      * rewrite lookup_insert_eq. intros [= ?]. lia.
      * rewrite lookup_insert_ne by done. intros Hk.
        destruct (wf_registered st Hwf k _ Hk) as (l1 & m1 & [= <-] & Hl1 & Hm1).
        congruence.
    + intros k Hne. by rewrite lookup_insert_ne.
    + intros l' Hl'. by rewrite lookup_app_l.
  - apply module_retrieve; [done | by apply Get_own | done].
Qed.

Lemma module_reregistration_witness :
  let st := (module "app" (VArr [VStr "ng"]) VUndefined initial).2 in
  wf st ∧ modules st !! "app" = Some (Some 0)
  ∧ (module "app" (VArr []) VUndefined st).1 = Return (VModule 1)
  ∧ module "app" VUndefined VUndefined st = (Return (VModule 0), st).
Proof.
  intros st.
  assert (wf st) as Hwf
    by (apply reachable_wf, reachable_module, reachable_initial).
  assert (modules st !! "app" = Some (Some 0)) as Hn by (by vm_compute).
  destruct (module_reregistration "app" 0 (VArr []) VUndefined
              VUndefined VUndefined st Hwf Hn eq_refl eq_refl eq_refl)
    as [(st' & Hnew & _) Hkeep].
  split; [done|]. split; [done|]. split; [|done].
  by rewrite Hnew.
Defined.

(** ** The registration methods *)

(** C3: each of provider, factory, service, value, constant, filter,
    controller, directive and config, called on a descriptor, returns
    without calling anything: the record of calls into outside code and the
    registry are what they were, every other descriptor is untouched, and
    the descriptor's invoke queue has grown at its end by the one tuple
    [[providerName, methodName, arguments]] of that method. *)
Theorem registration_only_records r l m args st :
  heap st !! l = Some m →
  ∃ st', registration_method r l args st = (Return (VModule l), st')
    ∧ heap st' !! l =
        Some (mkModule
                (_invokeQueue m ++ [((recorded r).1, (recorded r).2, args)])
                (_runBlocks m) (requires m) (name m))
    ∧ (∀ l', l' ≠ l → heap st' !! l' = heap st !! l')
    ∧ modules st' = modules st
    ∧ calls st' = calls st.
Proof.
  intros Hl. eexists. split; [apply registration_method_run|]. simpl.
  split; [by rewrite list_lookup_alter_eq, Hl|].
  split; [|done]. intros l' Hne. by rewrite list_lookup_alter_ne.
Qed.

Lemma registration_only_records_witness :
  let st := (module "app" (VArr []) VUndefined initial).2 in
  heap st !! 0 = Some (mkModule [] [] (VArr []) "app")
  ∧ ∃ st', moduleInstance.factory 0 [VStr "greeter"; VFun 7] st
             = (Return (VModule 0), st')
      ∧ heap st' !! 0 =
          Some (mkModule [("$provide", "factory", [VStr "greeter"; VFun 7])]
                         [] (VArr []) "app")
      ∧ calls st' = calls st.
Proof.
  intros st.
  assert (heap st !! 0 = Some (mkModule [] [] (VArr []) "app")) as Hl
    by reflexivity.
  split; [done|].
  destruct (registration_only_records Factory 0 _ [VStr "greeter"; VFun 7] st Hl)
    as (st' & Hrun & Hq & _ & _ & Hc).
  exists st'. done.
Defined.

(** The first statement of the file,
    [angular.coreModule.provider('$exceptionHandler', $ExceptionHandlerProvider)],
    with the core module at location 0 and the constructor as [VFun 0]. *)
Example coreModule_records_exceptionHandler :
  let st := (module "ng" (VArr []) VUndefined initial).2 in
  moduleInstance.provider 0 [VStr "$exceptionHandler"; VFun 0] st =
    (Return (VModule 0),
     mkState [mkModule [("$provide", "provider", [VStr "$exceptionHandler"; VFun 0])]
                       [] (VArr []) "ng"]
             (modules st) []).
Proof. reflexivity. Qed.

(** ** Memoization *)

Lemma Get_insert_ne (ms : gmap string (option loc)) n k o :
  k ≠ n → Get (<[k := o]> ms) n = Get ms n.
Proof. intros Hne. unfold Get. by rewrite lookup_insert_ne. Qed.

(** An operation other than a registration of [n] leaves [modules[n]] as
    it is. *)
Lemma Get_perform op n st :
  (∀ r configFn, op = CallModule n r configFn → truthy r = false) →
  Get (modules (perform op st).2) n = Get (modules st) n.
Proof.
  intros Hop. destruct op as [k r configFn | l c]; simpl.
  - destruct (module_cases k r configFn st)
      as [(v & -> & _) | [(e & ->) | (Hr & ->)]]; try done.
    simpl. apply Get_insert_ne. intros ->.
    specialize (Hop r configFn eq_refl). congruence.
  - by rewrite call_method_run.
Qed.

(** A call that returns has either found its value under the name, and
    changed nothing, or built one descriptor and stored it under the name;
    what it returned is what the registry then holds under the name, and
    asking again without a truthy [requires] returns it again. *)
Lemma module_returns n r configFn v st st' :
  module n r configFn st = (Return v, st') →
  Get (modules st') n = v ∧ truthy v = true
  ∧ ((st' = st ∧ Get (modules st) n = v)
     ∨ (truthy r = true ∧ v = VModule (length (heap st))
        ∧ st' = mkState (heap st ++ [fresh_module n r configFn])
                        (<[n := Some (length (heap st))]> (modules st))
                        (calls st)))
  ∧ (truthy r = false → st' = st ∧ Get (modules st) n = v)
  ∧ (∀ k, k ≠ n → Get (modules st') k = Get (modules st) k)
  ∧ module n VUndefined VUndefined st' = (Return v, st')
  ∧ (∀ r' configFn', truthy r' = false →
       module n r' configFn' st' = (Return v, st'))
  ∧ (∀ op r' configFn',
       (∀ r0 c0, op = CallModule n r0 c0 → truthy r0 = false) →
       truthy r' = false →
       module n r' configFn' (perform op st').2
         = (Return v, (perform op st').2))
  ∧ (length (heap st') ≤ S (length (heap st)))%nat.
Proof.
  intros Hrun.
  assert (Get (modules st') n = v ∧ truthy v = true) as [Hv Ht].
  { destruct (module_cases n r configFn st)
      as [(v0 & Heq & Hv & Ht) | [(e & Heq) | (Hr & Heq)]];
      rewrite Heq in Hrun; try discriminate; injection Hrun as <- <-; [done|].
    simpl. unfold Get. by rewrite lookup_insert_eq. }
  split; [done|]. split; [done|].
  split; [|split; [|split]].
  - destruct (module_cases n r configFn st)
      as [(v0 & Heq & Hv0 & _) | [(e & Heq) | (Hr & Heq)]];
      rewrite Heq in Hrun; try discriminate; injection Hrun as <- <-.
    + by left.
    + by right.
  - intros Hr.
    destruct (module_cases n r configFn st)
      as [(v0 & Heq & Hv0 & _) | [(e & Heq) | (Hr' & Heq)]];
      rewrite Heq in Hrun; try discriminate; [|congruence].
    by injection Hrun as <- <-.
  - intros k Hne.
    destruct (module_cases n r configFn st)
      as [(v0 & Heq & Hv0 & _) | [(e & Heq) | (Hr & Heq)]];
      rewrite Heq in Hrun; try discriminate; injection Hrun as <- <-; [done|].
    simpl. by apply Get_insert_ne.
  - split; [by apply module_retrieve|].
    split; [intros; by apply module_retrieve|].
    split.
    + intros op r' configFn' Hop Hr'. apply module_retrieve; [done | | done].
      by rewrite Get_perform.
    + destruct (module_cases n r configFn st)
        as [(v0 & Heq & _) | [(e & Heq) | (Hr & Heq)]];
        rewrite Heq in Hrun; try discriminate; injection Hrun as <- <-; [lia|].
      simpl. rewrite length_app. simpl. lia.
Qed.

(** C4: the registry memoizes by name.  Creating a module under a name
    (a truthy [requires], a name [modules] does not inherit) returns: it
    builds exactly one descriptor, that of its arguments, stores it under
    the name and under no other, and returns it.  From then on every call
    for the name without a truthy [requires], in particular
    [angular.module(name)], returns that very object and builds and changes
    nothing, also after any other operation that is not a new registration
    of the name.  And for every name and every call of [angular.module]
    that returns, what it returned is what the registry holds under the
    name afterwards: it was found there and nothing was built, or it was
    built by this call, once; without a truthy [requires] nothing is ever
    built; and [module(name)] made next returns the identical object. *)
Theorem module_memoized n r configFn st :
  wf st → inherited n = false → truthy r = true →
  ∃ st',
    module n r configFn st = (Return (VModule (length (heap st))), st')
    ∧ heap st' = heap st ++ [fresh_module n r configFn]
    ∧ modules st' = <[n := Some (length (heap st))]> (modules st)
    ∧ calls st' = calls st
    ∧ Get (modules st') n = VModule (length (heap st))
    ∧ (∀ k, k ≠ n → Get (modules st') k = Get (modules st) k)
    ∧ module n VUndefined VUndefined st'
        = (Return (VModule (length (heap st))), st')
    ∧ (∀ r' configFn', truthy r' = false →
         module n r' configFn' st' = (Return (VModule (length (heap st))), st'))
    ∧ (∀ op r' configFn',
         (∀ r0 c0, op = CallModule n r0 c0 → truthy r0 = false) →
         truthy r' = false →
         module n r' configFn' (perform op st').2
           = (Return (VModule (length (heap st))), (perform op st').2))
    ∧ (∀ n0 r0 c0 v0 st0 st0',
         module n0 r0 c0 st0 = (Return v0, st0') →
         Get (modules st0') n0 = v0 ∧ truthy v0 = true
         ∧ ((st0' = st0 ∧ Get (modules st0) n0 = v0)
            ∨ (truthy r0 = true ∧ v0 = VModule (length (heap st0))
               ∧ st0' = mkState (heap st0 ++ [fresh_module n0 r0 c0])
                                (<[n0 := Some (length (heap st0))]> (modules st0))
                                (calls st0)))
         ∧ (truthy r0 = false → st0' = st0 ∧ Get (modules st0) n0 = v0)
         ∧ (∀ k, k ≠ n0 → Get (modules st0') k = Get (modules st0) k)
         ∧ module n0 VUndefined VUndefined st0' = (Return v0, st0')
         ∧ (∀ r' configFn', truthy r' = false →
              module n0 r' configFn' st0' = (Return v0, st0'))
         ∧ (∀ op r' configFn',
              (∀ r1 c1, op = CallModule n0 r1 c1 → truthy r1 = false) →
              truthy r' = false →
              module n0 r' configFn' (perform op st0').2
                = (Return v0, (perform op st0').2))
         ∧ (length (heap st0') ≤ S (length (heap st0)))%nat).
Proof.
  intros Hwf Hi Hr.
  pose proof (wf_inherited st Hwf _ inherited_hasOwnProperty) as Hh.
  eexists. split; [apply module_create; [done | done | by right]|].
  set (st' := mkState _ _ _).
  assert (module n r configFn st = (Return (VModule (length (heap st))), st'))
    as Hrun by (apply module_create; [done | done | by right]).
  destruct (module_returns _ _ _ _ _ _ Hrun)
    as (Hget & _ & _ & _ & Hother & Hagain & Hfalsy & Hlater & _).
  do 3 (split; [done|]).
  do 5 (split; [done|]).
  intros n0 r0 c0 v0 st0 st0'. apply module_returns.
Qed.

Lemma module_memoized_witness :
  wf initial ∧ inherited "app" = false ∧ truthy (VArr [VStr "ng"]) = true
  ∧ ∃ st',
      module "app" (VArr [VStr "ng"]) VUndefined initial = (Return (VModule 0), st')
      ∧ heap st' = [mkModule [] [] (VArr [VStr "ng"]) "app"]
      ∧ Get (modules st') "app" = VModule 0
      ∧ Get (modules st') "lib" = Get (modules initial) "lib"
      ∧ module "app" VUndefined VUndefined st' = (Return (VModule 0), st').
Proof.
  split; [exact wf_initial|]. split; [reflexivity|]. split; [reflexivity|].
  destruct (module_memoized "app" (VArr [VStr "ng"]) VUndefined initial
              wf_initial eq_refl eq_refl)
    as (st' & Hrun & Hheap & _ & _ & Hget & Hother & Hagain & _).
  exists st'.
  split; [exact Hrun|]. split; [exact Hheap|]. split; [exact Hget|].
  split; [apply Hother; discriminate|]. exact Hagain.
Defined.

(** ** The exception handler *)

(** C5: the handler calls the logger's [error] on the logger with exactly
    the arguments it was given, whatever they are and however many; it
    returns nothing of its own, and what [error] throws it lets through.
    With a sink that records, one call is recorded; with a logger that
    throws, the handler throws the same. *)
Theorem exceptionHandler_forwards log args st :
  get_function ExceptionHandlerProvider = exceptionHandler
  ∧ get_inject ExceptionHandlerProvider = ["$log"]
  ∧ exceptionHandler log args st =
      match error log (log_object log) args st with
      | (Return _, st') => (Return VUndefined, st')
      | (Throw e, st') => (Throw e, st')
      end
  ∧ exceptionHandler recording_log args st =
      (Return VUndefined,
       mkState (heap st) (modules st)
               (calls st ++ [mkCall "$log.error" (log_object recording_log) args]))
  ∧ (∀ e, exceptionHandler (failing_log e) args st = (Throw e, st)).
Proof. split; [done|]. split; [done|]. split; [|done]. reflexivity. Qed.

Example exceptionHandler_records_exception_and_cause :
  exceptionHandler recording_log [VStr "boom"; VStr "in ng-click"] initial =
    (Return VUndefined,
     mkState [] ∅ [mkCall "$log.error" (VObj 0) [VStr "boom"; VStr "in ng-click"]]).
Proof. reflexivity. Qed.

(** ** Run blocks *)

Lemma invocations_of_Run fns : invocations_of (Run <$> fns) = [].
Proof. by induction fns. Qed.

Lemma run_blocks_of_Run fns : run_blocks_of (Run <$> fns) = fns.
Proof. induction fns as [|fn fns IH]; [done|]. cbn. by rewrite IH. Qed.

(** C6: [run(fn)] on a descriptor puts [fn] at the end of its run blocks
    and leaves its invoke queue, the other descriptors and the registry as
    they were; calls of [run] made one after the other leave their
    callbacks at the end of the list in the order of the calls. *)
Theorem run_appends l m fn fns st :
  heap st !! l = Some m →
  (∃ st', moduleInstance.run l fn st = (Return (VModule l), st')
     ∧ heap st' !! l =
         Some (mkModule (_invokeQueue m) (_runBlocks m ++ [fn])
                        (requires m) (name m))
     ∧ (∀ l', l' ≠ l → heap st' !! l' = heap st !! l')
     ∧ modules st' = modules st)
  ∧ (∃ st', each l (Run <$> fns) st = (Return (), st')
       ∧ heap st' !! l =
           Some (mkModule (_invokeQueue m) (_runBlocks m ++ fns)
                          (requires m) (name m))).
Proof.
  intros Hl. split.
  - eexists. split; [apply run_run|]. simpl.
    split; [by rewrite list_lookup_alter_eq, Hl|].
    split; [|done]. intros l' Hne. by rewrite list_lookup_alter_ne.
  - destruct (each_run (Run <$> fns) l m st Hl) as (st' & Hrun & Hm & _).
    exists st'. split; [done|]. rewrite Hm.
    by rewrite invocations_of_Run, run_blocks_of_Run, app_nil_r.
Qed.

Lemma run_appends_witness :
  let st := (module "app" (VArr []) (VFun 1) initial).2 in
  heap st !! 0 = Some (mkModule [("$injector", "invoke", [VFun 1])] [] (VArr []) "app")
  ∧ ∃ st', each 0 [Run (VFun 2); Run (VFun 3)] st = (Return (), st')
      ∧ heap st' !! 0 =
          Some (mkModule [("$injector", "invoke", [VFun 1])] [VFun 2; VFun 3]
                         (VArr []) "app").
Proof.
  intros st.
  assert (heap st !! 0
          = Some (mkModule [("$injector", "invoke", [VFun 1])] [] (VArr []) "app"))
    as Hl by reflexivity.
  split; [done|].
  exact (proj2 (run_appends 0 _ (VFun 2) [VFun 2; VFun 3] st Hl)).
Defined.

(** ** Order of the queues *)

(** No operation takes anything out of a queue or moves what is in it. *)
Lemma perform_extends op l m st :
  heap st !! l = Some m →
  ∃ m', heap (perform op st).2 !! l = Some m'
    ∧ _invokeQueue m `prefix_of` _invokeQueue m'
    ∧ _runBlocks m `prefix_of` _runBlocks m'.
Proof.
  intros Hl. destruct op as [k r configFn | l2 c]; simpl.
  - destruct (module_cases k r configFn st)
      as [(v & -> & _) | [(e & ->) | (Hr & ->)]]; simpl.
    + by exists m.
    + by exists m.
    + exists m. split; [|done].
      rewrite lookup_app_l by by eapply lookup_lt_Some. done.
  - rewrite call_method_run. simpl.
    destruct (decide (l2 = l)) as [->|Hne].
    + exists (effect c m). rewrite list_lookup_alter_eq, Hl.
      split; [done|]. rewrite effect_invokeQueue, effect_runBlocks.
      split; by apply prefix_app_r.
    + exists m. by rewrite list_lookup_alter_ne.
Qed.

(** C7: after any sequence of calls of the ten methods on a descriptor,
    its invoke queue is what it was followed by the tuples of the
    registration calls in the order they were made, and its run blocks are
    what they were followed by the callbacks of the [run] calls in the order
    they were made; and whatever a client does next, to this descriptor, to
    another or to the registry, what a queue holds stays at its front. *)
Theorem queues_keep_call_order l m cs st :
  heap st !! l = Some m →
  (∃ st' m', each l cs st = (Return (), st')
     ∧ heap st' !! l = Some m'
     ∧ _invokeQueue m' = _invokeQueue m ++ invocations_of cs
     ∧ _runBlocks m' = _runBlocks m ++ run_blocks_of cs)
  ∧ (∀ op, ∃ m', heap (perform op st).2 !! l = Some m'
       ∧ _invokeQueue m `prefix_of` _invokeQueue m'
       ∧ _runBlocks m `prefix_of` _runBlocks m').
Proof.
  intros Hl. split.
  - destruct (each_run cs l m st Hl) as (st' & Hrun & Hm & _).
    by eexists st', _.
  - intros op. by apply perform_extends.
Qed.

Lemma queues_keep_call_order_witness :
  let st := (module "app" (VArr []) VUndefined initial).2 in
  heap st !! 0 = Some (mkModule [] [] (VArr []) "app")
  ∧ ∃ st' m',
      each 0 [Register Value [VStr "a"; VNum 1]; Run (VFun 2);
              Register Constant [VStr "b"; VNum 2]; Run (VFun 3);
              Register Config [VFun 4]] st = (Return (), st')
      ∧ heap st' !! 0 = Some m'
      ∧ _invokeQueue m' = [("$provide", "value", [VStr "a"; VNum 1]);
                           ("$provide", "constant", [VStr "b"; VNum 2]);
                           ("$injector", "invoke", [VFun 4])]
      ∧ _runBlocks m' = [VFun 2; VFun 3].
Proof.
  intros st.
  assert (heap st !! 0 = Some (mkModule [] [] (VArr []) "app")) as Hl
    by reflexivity.
  split; [done|].
  exact (proj1 (queues_keep_call_order 0 _
                  [Register Value [VStr "a"; VNum 1]; Run (VFun 2);
                   Register Constant [VStr "b"; VNum 2]; Run (VFun 3);
                   Register Config [VFun 4]] st Hl)).
Defined.

(** ** Chaining *)

(** C8: each of the ten methods returns the descriptor it was called on,
    and so does any chain of such calls begun on a descriptor. *)
Theorem methods_return_the_descriptor l c cs st :
  (call_method l c st).1 = Return (VModule l)
  ∧ (chain (VModule l) cs st).1 = Return (VModule l).
Proof. split; [by rewrite call_method_run | by rewrite chain_each]. Qed.

(** ** [constant] *)

(** C9: [constant] puts its tuple at the end of the invoke queue, as if no
    insert method had been asked for; registered after a provider, a
    constant stands after that provider in the queue. *)
Theorem constant_appends l m args pargs st :
  heap st !! l = Some m →
  moduleInstance.constant l args st
    = invokeLater l "$provide" "constant" None args st
  ∧ (∃ st', moduleInstance.constant l args st = (Return (VModule l), st')
       ∧ heap st' !! l =
           Some (mkModule (_invokeQueue m ++ [("$provide", "constant", args)])
                          (_runBlocks m) (requires m) (name m)))
  ∧ (∃ st', chain (VModule l)
              [Register Provider pargs; Register Constant args] st
            = (Return (VModule l), st')
       ∧ heap st' !! l =
           Some (mkModule (_invokeQueue m ++ [("$provide", "provider", pargs);
                                              ("$provide", "constant", args)])
                          (_runBlocks m) (requires m) (name m))).
Proof.
  intros Hl. split; [done|]. split.
  - eexists. split; [apply (registration_method_run Constant)|]. simpl.
    by rewrite list_lookup_alter_eq, Hl.
  - rewrite chain_each.
    destruct (each_run [Register Provider pargs; Register Constant args]
                l m st Hl) as (st' & Hrun & Hm & _).
    rewrite Hrun. exists st'. split; [done|]. rewrite Hm. simpl.
    by rewrite app_nil_r.
Qed.

Lemma constant_appends_witness :
  let st := (module "app" (VArr []) VUndefined initial).2 in
  heap st !! 0 = Some (mkModule [] [] (VArr []) "app")
  ∧ ∃ st', chain (VModule 0)
             [Register Provider [VStr "p"; VFun 1];
              Register Constant [VStr "c"; VNum 5]] st
           = (Return (VModule 0), st')
      ∧ heap st' !! 0 =
          Some (mkModule [("$provide", "provider", [VStr "p"; VFun 1]);
                          ("$provide", "constant", [VStr "c"; VNum 5])]
                         [] (VArr []) "app").
Proof.
  intros st.
  assert (heap st !! 0 = Some (mkModule [] [] (VArr []) "app")) as Hl
    by reflexivity.
  split; [done|].
  exact (proj2 (proj2 (constant_appends 0 _ [VStr "c"; VNum 5]
                         [VStr "p"; VFun 1] st Hl))).
Defined.

(** ** A retrieval that fails *)

(** C10: when [angular.module(name)], called without a truthy [requires],
    throws, the error is 'No module: ' + name and the state is exactly what
    it was: no entry for the name, every other entry and every queue
    untouched; a call with a dependency list made afterwards builds the
    module and registers it as on a registry that was never asked. *)
Theorem failed_retrieval_changes_nothing n r configFn e st st' r' configFn' :
  wf st → truthy r = false → truthy r' = true →
  module n r configFn st = (Throw e, st') →
  st' = st
  ∧ e = Error ("No module: " +:+ n)
  ∧ modules st' !! n = None
  ∧ module n r' configFn' st' =
      (Return (VModule (length (heap st))),
       mkState (heap st ++ [fresh_module n r' configFn'])
               (<[n := Some (length (heap st))]> (modules st))
               (calls st)).
Proof.
  intros Hwf Hr Hr' Hrun.
  pose proof (module_outcomes n r configFn st Hwf) as Hout.
  rewrite Hrun in Hout.
  inversion Hout as [| | _ Hi Ho | ]; subst.
  split; [done|]. split; [done|]. split; [done|].
  apply module_create; [done | | by right].
  apply (wf_inherited _ Hwf), inherited_hasOwnProperty.
Qed.

Lemma failed_retrieval_changes_nothing_witness :
  let st := (module "app" (VArr []) VUndefined initial).2 in
  wf st
  ∧ module "lib" VUndefined VUndefined st = (Throw (Error "No module: lib"), st)
  ∧ module "lib" (VArr [VStr "app"]) VUndefined st =
      (Return (VModule 1),
       mkState (heap st ++ [mkModule [] [] (VArr [VStr "app"]) "lib"])
               (<["lib" := Some 1]> (modules st)) (calls st)).
Proof.
  intros st.
  assert (wf st) as Hwf
    by (apply reachable_wf, reachable_module, reachable_initial).
  assert (module "lib" VUndefined VUndefined st
          = (Throw (Error "No module: lib"), st)) as Hrun
    by (apply module_unregistered; done).
  split; [done|]. split; [done|].
  exact (proj2 (proj2 (proj2
    (failed_retrieval_changes_nothing "lib" VUndefined VUndefined _ st st
       (VArr [VStr "app"]) VUndefined Hwf eq_refl eq_refl Hrun)))).
Defined.

(** * Further properties of the loader *)

(** ** The configuration function *)

(** X1: creating a module with a configuration function is creating it
    without one and then calling [config] with the function on the result
    (the [if (configFn)] at the end of the factory). *)
Theorem module_configFn_is_config n r configFn st :
  wf st → inherited n = false →
  truthy r = true → truthy configFn = true →
  module n r configFn st =
    (m ← module n r VUndefined; send m (Register Config [configFn])) st.
Proof.
  intros Hwf Hi Hr Hc.
  pose proof (wf_inherited st Hwf _ inherited_hasOwnProperty) as Hh.
  unfold mbind, M_bind.
  rewrite !module_create by (try done; by right).
  unfold send. rewrite call_method_run. simpl.
  rewrite alter_new. unfold fresh_module. by rewrite Hc.
Qed.

Lemma module_configFn_is_config_witness :
  module "app" (VArr []) (VFun 1) initial =
    (Return (VModule 0),
     mkState [mkModule [("$injector", "invoke", [VFun 1])] [] (VArr []) "app"]
             (<["app" := Some 0]> ∅) [])
  ∧ module "app" (VArr []) (VFun 1) initial =
      (m ← module "app" (VArr []) VUndefined;
       send m (Register Config [VFun 1])) initial.
Proof.
  split; [reflexivity|].
  exact (module_configFn_is_config "app" (VArr []) (VFun 1) initial
           wf_initial eq_refl eq_refl eq_refl).
Defined.

(** X2: when no truthy [requires] is given, the configuration function is
    not looked at: the call returns or throws as without it, and no queue
    records it. *)
Theorem module_retrieval_ignores_configFn n r configFn configFn' st :
  truthy r = false →
  module n r configFn st = module n r configFn' st
  ∧ (module n r configFn st).2 = st.
Proof.
  intros Hr. destruct (truthy (Get (modules st) n)) eqn:Hv.
  - by rewrite !(module_retrieve n r _ st (Get (modules st) n)).
  - by rewrite !module_missing.
Qed.

Lemma module_retrieval_ignores_configFn_witness :
  let st := (module "app" (VArr []) VUndefined initial).2 in
  module "app" VUndefined (VFun 9) st = (Return (VModule 0), st)
  ∧ module "app" VUndefined (VFun 9) st = module "app" VUndefined VUndefined st.
Proof.
  intros st. split; [reflexivity|].
  exact (proj1 (module_retrieval_ignores_configFn "app" VUndefined (VFun 9)
                  VUndefined st eq_refl)).
Defined.

(** ** The registry in reachable states *)

(** X3: whatever calls a program has made, every entry of the registry is
    a descriptor (never the null that [module] writes on its way), that
    descriptor is on the heap and its [name] is the key it is stored under;
    so no descriptor is registered under two names. *)
Theorem reachable_registry_consistent st :
  reachable st →
  (∀ n o, modules st !! n = Some o →
     ∃ l m, o = Some l ∧ heap st !! l = Some m ∧ name m = n)
  ∧ (∀ n1 n2 l,
       modules st !! n1 = Some (Some l) → modules st !! n2 = Some (Some l) →
       n1 = n2).
Proof.
  intros Hwf%reachable_wf. split; [apply (wf_registered st Hwf)|].
  intros n1 n2 l H1 H2.
  destruct (wf_registered st Hwf n1 _ H1) as (l1 & m1 & [= <-] & Hl1 & <-).
  destruct (wf_registered st Hwf n2 _ H2) as (l2 & m2 & [= <-] & Hl2 & <-).
  congruence.
Qed.

Lemma reachable_registry_consistent_witness :
  let st := perform_all [CallModule "a" (VArr []) VUndefined;
                         CallModule "b" (VArr [VStr "a"]) VUndefined;
                         CallModule "a" (VArr []) VUndefined] initial in
  reachable st
  ∧ modules st !! "a" = Some (Some 2)
  ∧ ∀ n2, modules st !! n2 = Some (Some 2) → "a" = n2.
Proof.
  intros st.
  assert (reachable st) as Hst
    by (do 3 apply reachable_module; apply reachable_initial).
  assert (modules st !! "a" = Some (Some 2)) as Ha by (by vm_compute).
  split; [done|]. split; [done|].
  intros n2. exact (proj2 (reachable_registry_consistent st Hst) "a" n2 2 Ha).
Defined.

(** X4: in a reachable state [angular.module] throws in one case only, a
    falsy [requires] with a name that is neither registered nor inherited,
    and what it throws is then 'No module: ' + name; in particular the call
    [modules.hasOwnProperty(name)] never fails. *)
Theorem module_throws_iff_missing n r configFn e st :
  reachable st →
  (module n r configFn st).1 = Throw e
  ↔ e = Error ("No module: " +:+ n)
    ∧ truthy r = false ∧ modules st !! n = None ∧ inherited n = false.
Proof.
  intros Hwf%reachable_wf.
  destruct (module_outcomes n r configFn st Hwf) as [Hi Ho|l m Hr Ho|Hr Hi Ho|Hr Hi];
    simpl; (split; [intros He | intros (He & Hr' & Ho' & Hi')]);
    try discriminate; try congruence.
  by injection He as <-.
Qed.

Lemma module_throws_iff_missing_witness :
  let st := (module "app" (VArr []) VUndefined initial).2 in
  reachable st
  ∧ (module "lib" VNull VUndefined st).1 = Throw (Error "No module: lib").
Proof.
  intros st.
  assert (reachable st) as Hst by apply reachable_module, reachable_initial.
  split; [done|].
  apply (module_throws_iff_missing "lib" VNull VUndefined _ st Hst).
  repeat split; reflexivity.
Defined.

(** X5: a name that [modules] inherits from [Object.prototype] can never
    be registered: in every reachable state it has no entry, and a call
    with it, with or without [requires], builds nothing and returns the
    inherited member. *)
Theorem inherited_name_never_registered n r configFn st :
  reachable st → inherited n = true →
  modules st !! n = None
  ∧ module n r configFn st = (Return (VNative n), st).
Proof.
  intros Hwf%reachable_wf Hi.
  split; [by apply (wf_inherited st) | by apply module_inherited_name].
Qed.

Lemma inherited_name_never_registered_witness :
  let st := (module "constructor" (VArr []) (VFun 1) initial).2 in
  reachable st
  ∧ st = initial
  ∧ module "constructor" (VArr [VStr "ng"]) VUndefined st
      = (Return (VNative "constructor"), st).
Proof.
  intros st.
  assert (reachable st) as Hst by apply reachable_module, reachable_initial.
  split; [done|]. split; [reflexivity|].
  exact (proj2 (inherited_name_never_registered "constructor"
                  (VArr [VStr "ng"]) VUndefined st Hst eq_refl)).
Defined.

(** ** What a call leaves alone *)



Lemma perform_keeps op l m st :
  heap st !! l = Some m →
  ∃ m', heap (perform op st).2 !! l = Some m'
    ∧ name m' = name m ∧ requires m' = requires m
    ∧ _invokeQueue m `prefix_of` _invokeQueue m'
    ∧ _runBlocks m `prefix_of` _runBlocks m'.
Proof.
  intros Hl. destruct op as [k r configFn | l2 c]; simpl.
  - destruct (module_cases k r configFn st)
      as [(v & -> & _) | [(e & ->) | (Hr & ->)]]; simpl;
      exists m; try done.
    split; [|done]. rewrite lookup_app_l by by eapply lookup_lt_Some. done.
  - rewrite call_method_run. simpl.
    destruct (decide (l2 = l)) as [->|Hne].
    + exists (effect c m). rewrite list_lookup_alter_eq, Hl.
      rewrite effect_name, effect_requires, effect_invokeQueue, effect_runBlocks.
      repeat split; by apply prefix_app_r.
    + exists m. by rewrite list_lookup_alter_ne.
Qed.

Lemma perform_calls op st : calls (perform op st).2 = calls st.
Proof.
  destruct op as [k r configFn | l c]; simpl.
  - by destruct (module_cases k r configFn st)
      as [(v & -> & _) | [(e & ->) | (Hr & ->)]].
  - by rewrite call_method_run.
Qed.

(** X7: once a descriptor exists, no program of calls to the loader and
    to descriptors removes it or changes its [name] or its [requires];
    what its two queues hold stays at their front; and the program calls
    nothing outside the loader. *)
Theorem descriptor_survives ops : ∀ l m st,
  heap st !! l = Some m →
  ∃ m', heap (perform_all ops st) !! l = Some m'
    ∧ name m' = name m ∧ requires m' = requires m
    ∧ _invokeQueue m `prefix_of` _invokeQueue m'
    ∧ _runBlocks m `prefix_of` _runBlocks m'
    ∧ calls (perform_all ops st) = calls st.
Proof.
  induction ops as [|op ops IH]; intros l m st Hl; simpl.
  - by exists m.
  - destruct (perform_keeps op l m st Hl) as (m1 & Hl1 & Hn1 & Hr1 & Hq1 & Hb1).
    destruct (IH l m1 _ Hl1) as (m' & Hl' & Hn' & Hr' & Hq' & Hb' & Hc').
    exists m'. split; [done|].
    split; [congruence|]. split; [congruence|].
    split; [by etrans|]. split; [by etrans|].
    by rewrite Hc', perform_calls.
Qed.

Lemma descriptor_survives_witness :
  let st := (module "app" (VArr [VStr "ng"]) VUndefined initial).2 in
  heap st !! 0 = Some (mkModule [] [] (VArr [VStr "ng"]) "app")
  ∧ ∃ m', heap (perform_all [CallMethod 0 (Register Value [VStr "v"; VNum 1]);
                             CallModule "app" (VArr []) (VFun 3);
                             CallMethod 1 (Run (VFun 4));
                             CallModule "gone" VUndefined VUndefined] st) !! 0
            = Some m'
      ∧ name m' = "app" ∧ requires m' = VArr [VStr "ng"].
Proof.
  intros st.
  assert (heap st !! 0 = Some (mkModule [] [] (VArr [VStr "ng"]) "app")) as Hl
    by reflexivity.
  split; [done|].
  destruct (descriptor_survives
              [CallMethod 0 (Register Value [VStr "v"; VNum 1]);
               CallModule "app" (VArr []) (VFun 3);
               CallMethod 1 (Run (VFun 4));
               CallModule "gone" VUndefined VUndefined] 0 _ st Hl)
    as (m' & Hl' & Hn & Hr & _).
  by exists m'.
Defined.

(** X8: a descriptor replaced in the registry is not destroyed.  Whoever
    holds it can go on calling its methods: the calls are recorded in the
    old descriptor, the new one does not see them, and the registry goes on
    serving the new one. *)
Theorem overwritten_descriptor_detached n l m r configFn cs st :
  wf st → modules st !! n = Some (Some l) → heap st !! l = Some m →
  truthy r = true →
  ∃ st1 st2,
    module n r configFn st = (Return (VModule (length (heap st))), st1)
    ∧ each l cs st1 = (Return (), st2)
    ∧ heap st2 !! l =
        Some (mkModule (_invokeQueue m ++ invocations_of cs)
                       (_runBlocks m ++ run_blocks_of cs)
                       (requires m) (name m))
    ∧ heap st2 !! length (heap st) = Some (fresh_module n r configFn)
    ∧ module n VUndefined VUndefined st2
        = (Return (VModule (length (heap st))), st2).
Proof.
  intros Hwf Hn Hl Hr.
  pose proof (wf_inherited st Hwf _ inherited_hasOwnProperty) as Hh.
  pose proof (lookup_lt_Some _ _ _ Hl) as Hlt.
  eexists.
  rewrite module_create by (try done; left; by rewrite Hn).
  set (st1 := mkState _ _ _).
  assert (heap st1 !! l = Some m) as Hl1
    by (subst st1; simpl; by rewrite lookup_app_l).
  destruct (each_run cs l m st1 Hl1) as (st2 & Hrun & Hm & Hother & Hmod & _).
  exists st2. split; [done|]. split; [done|]. split; [done|].
  split.
  - rewrite Hother by lia. subst st1. simpl. by rewrite list_lookup_middle.
  - apply module_retrieve; [done | | done].
    rewrite Hmod. subst st1. simpl. unfold Get. by rewrite lookup_insert_eq.
Qed.

Lemma overwritten_descriptor_detached_witness :
  let st := (module "app" (VArr []) VUndefined initial).2 in
  wf st ∧ modules st !! "app" = Some (Some 0)
  ∧ ∃ st1 st2,
      module "app" (VArr []) VUndefined st = (Return (VModule 1), st1)
      ∧ each 0 [Register Factory [VStr "f"; VFun 1]] st1 = (Return (), st2)
      ∧ heap st2 !! 0 =
          Some (mkModule [("$provide", "factory", [VStr "f"; VFun 1])] []
                         (VArr []) "app")
      ∧ heap st2 !! 1 = Some (mkModule [] [] (VArr []) "app")
      ∧ module "app" VUndefined VUndefined st2 = (Return (VModule 1), st2).
Proof.
  intros st.
  assert (wf st) as Hwf
    by (apply reachable_wf, reachable_module, reachable_initial).
  assert (modules st !! "app" = Some (Some 0)) as Hn by (by vm_compute).
  assert (heap st !! 0 = Some (mkModule [] [] (VArr []) "app")) as Hl
    by reflexivity.
  split; [done|]. split; [done|].
  exact (overwritten_descriptor_detached "app" 0 _ (VArr []) VUndefined
           [Register Factory [VStr "f"; VFun 1]] st Hwf Hn Hl eq_refl).
Defined.

(** X9: calls made on two different descriptors do not interfere: made in
    either order they leave the same state. *)
Theorem calls_on_distinct_descriptors_commute l1 l2 c1 c2 st :
  l1 ≠ l2 →
  perform_all [CallMethod l1 c1; CallMethod l2 c2] st
  = perform_all [CallMethod l2 c2; CallMethod l1 c1] st.
Proof.
  intros Hne. simpl. rewrite !call_method_run. simpl.
  by rewrite list_alter_alter_ne.
Qed.

Lemma calls_on_distinct_descriptors_commute_witness :
  let st := perform_all [CallModule "a" (VArr []) VUndefined;
                         CallModule "b" (VArr []) VUndefined] initial in
  0 ≠ 1
  ∧ heap (perform_all [CallMethod 0 (Run (VFun 1));
                       CallMethod 1 (Register Config [VFun 2])] st)
    = [mkModule [] [VFun 1] (VArr []) "a";
       mkModule [("$injector", "invoke", [VFun 2])] [] (VArr []) "b"]
  ∧ perform_all [CallMethod 0 (Run (VFun 1));
                 CallMethod 1 (Register Config [VFun 2])] st
    = perform_all [CallMethod 1 (Register Config [VFun 2]);
                   CallMethod 0 (Run (VFun 1))] st.
Proof.
  intros st. assert (0 ≠ 1) as Hne by lia.
  split; [done|]. split; [reflexivity|].
  exact (calls_on_distinct_descriptors_commute 0 1 (Run (VFun 1))
           (Register Config [VFun 2]) st Hne).
Defined.

(** ** [ensure] *)

(** X10: for factories that return a descriptor, as the declared type of
    the registry has it, [ensure] builds once: after a call that returned,
    a second call for the same name returns the identical value without
    running its factory, even one that would throw or build another
    descriptor, and changes nothing; and when the factory throws, [ensure]
    throws the same and stores nothing. *)
Theorem ensure_memoizes n (f g : M loc) v st st' :
  ensure n f st = (Return v, st') →
  ensure n g st' = (Return v, st')
  ∧ (∀ e st1, truthy (Get (modules st) n) = false →
       g st = (Throw e, st1) → ensure n g st = (Throw e, st1)).
Proof.
  intros Hrun. split.
  - unfold ensure in *. revert Hrun. run_M.
    destruct (truthy (Get (modules st) n)) eqn:Hv.
    + intros [= <- <-]. by rewrite Hv.
    + destruct (f st) as [[l|e] st1]; [|discriminate].
      intros [= <- <-]. simpl. unfold Get. by rewrite lookup_insert_eq.
  - intros e st1 Hv Hg. unfold ensure. run_M. by rewrite Hv, Hg.
Qed.

Lemma ensure_memoizes_witness :
  let st := (ensure "app" (alloc (mkModule [] [] (VArr []) "app")) initial).2 in
  ensure "app" (alloc (mkModule [] [] (VArr []) "app")) initial
    = (Return (VModule 0), st)
  ∧ ensure "app" (throw (Error "never built")) st = (Return (VModule 0), st).
Proof.
  intros st.
  assert (ensure "app" (alloc (mkModule [] [] (VArr []) "app")) initial
          = (Return (VModule 0), st)) as Hrun by reflexivity.
  split; [done|].
  exact (proj1 (ensure_memoizes "app" _ (throw (Error "never built")) _ _ _ Hrun)).
Defined.
